(** * The create-project modal of review-app

    A shallow embedding of [src/components/Modals/ProjectModal.tsx]:
    the zod form schema, the submission handler [handleCreateProject]
    and the dismiss guard [validateProjectPresence], with the properties
    the specification states about them. *)

From stdpp Require Import gmap strings list fin_maps.

Set Default Proof Using "Type".

(** ** JavaScript strings

    A JavaScript string is a sequence of UTF-16 code units and [.length]
    counts code units, so a string is a list of code units here.  The
    literals of the source are all ASCII; [lit] embeds them. *)

Definition code_unit := N.
Definition jsstring := list code_unit.

Definition lit (s : string) : jsstring :=
  map Ascii.N_of_ascii (String.list_ascii_of_string s).

(** [prefix_of p s]: [s.startsWith(p)]. *)
Fixpoint prefix_of (p s : jsstring) : bool :=
  match p, s with
  | [], _ => true
  | _ :: _, [] => false
  | a :: p', b :: s' => (a =? b)%N && prefix_of p' s'
  end.

(** [includes s needle]: [s.includes(needle)], a scan for the first
    position at which [needle] is a prefix of the rest. *)
Fixpoint includes (s needle : jsstring) : bool :=
  prefix_of needle s ||
  match s with
  | [] => false
  | _ :: s' => includes s' needle
  end.

(** ** Regular expressions

    The fragment of the regular-expression language that the schema uses:
    character classes given by ranges, concatenation, alternation and
    iteration.  [test] is whole-string matching, which is what a pattern
    anchored by [^] and [$] (no flags) asks for. *)

Module Regex.

Inductive regex : Type :=
| Void
| Eps
| Class (ranges : list (code_unit * code_unit))
| Cat (r1 r2 : regex)
| Alt (r1 r2 : regex)
| Star (r : regex).

(** [r+] *)
Definition Plus (r : regex) : regex := Cat r (Star r).

Definition in_ranges (ranges : list (code_unit * code_unit)) (c : code_unit) : bool :=
  existsb (fun rg => (fst rg <=? c)%N && (c <=? snd rg)%N) ranges.

(** The strings a pattern denotes. *)
Inductive lang : regex -> jsstring -> Prop :=
| lang_eps : lang Eps []
| lang_class ranges c : in_ranges ranges c = true -> lang (Class ranges) [c]
| lang_cat r1 r2 s1 s2 : lang r1 s1 -> lang r2 s2 -> lang (Cat r1 r2) (s1 ++ s2)
| lang_alt_l r1 r2 s : lang r1 s -> lang (Alt r1 r2) s
| lang_alt_r r1 r2 s : lang r2 s -> lang (Alt r1 r2) s
| lang_star_nil r : lang (Star r) []
| lang_star_cons r s1 s2 :
    lang r s1 -> lang (Star r) s2 -> lang (Star r) (s1 ++ s2).

Fixpoint nullable (r : regex) : bool :=
  match r with
  | Void => false
  | Eps => true
  | Class _ => false
  | Cat r1 r2 => nullable r1 && nullable r2
  | Alt r1 r2 => nullable r1 || nullable r2
  | Star _ => true
  end.

(** The residual of [r] after reading the code unit [c]. *)
Fixpoint deriv (c : code_unit) (r : regex) : regex :=
  match r with
  | Void => Void
  | Eps => Void
  | Class ranges => if in_ranges ranges c then Eps else Void
  | Cat r1 r2 =>
      if nullable r1
      then Alt (Cat (deriv c r1) r2) (deriv c r2)
      else Cat (deriv c r1) r2
  | Alt r1 r2 => Alt (deriv c r1) (deriv c r2)
  | Star r' => Cat (deriv c r') (Star r')
  end.

(** [test r s]: [/^r$/.test(s)]. *)
Fixpoint test (r : regex) (s : jsstring) : bool :=
  match s with
  | [] => nullable r
  | c :: s' => test (deriv c r) s'
  end.

End Regex.

(** ** The zod string schema

    [z.string()] followed by a chain of checks.  Parsing runs every check
    of the chain in the order of declaration and records one issue for
    each check that fails; it does not stop at the first failure. *)

Module z.

Inductive ZodIssueCode : Type :=
| invalid_type
| too_small
| too_big
| invalid_string.

Record ZodIssue : Type := mkIssue {
  code : ZodIssueCode;
  path : list jsstring;
  message : jsstring
}.

Inductive ZodStringCheck : Type :=
| min (value : nat) (msg : jsstring)
| max (value : nat) (msg : jsstring)
| regex (re : Regex.regex) (msg : jsstring).

(** The checks of a [ZodString], in the order of the chain. *)
Definition ZodString := list ZodStringCheck.

(** The issue of one check on [data], if it fails. *)
Definition run_check (pth : list jsstring) (data : jsstring)
    (check : ZodStringCheck) : option ZodIssue :=
  match check with
  | min value msg =>
      if length data <? value then Some (mkIssue too_small pth msg) else None
  | max value msg =>
      if value <? length data then Some (mkIssue too_big pth msg) else None
  | regex re msg =>
      if Regex.test re data then None else Some (mkIssue invalid_string pth msg)
  end.

Definition string_parse (pth : list jsstring) (checks : ZodString)
    (data : jsstring) : list ZodIssue :=
  omap (run_check pth data) checks.

(** [z.object]: the keys of the shape are parsed in order, each under its
    own path; a key the input lacks is an [invalid_type] issue. *)
Definition ZodObject := list (jsstring * ZodString).

Definition object_parse (shape : ZodObject)
    (data : jsstring -> option jsstring) : list ZodIssue :=
  flat_map
    (fun entry =>
       match data (fst entry) with
       | Some v => string_parse [fst entry] (snd entry) v
       | None => [mkIssue invalid_type [fst entry] (lit "Required")]
       end)
    shape.

Definition code_name (c : ZodIssueCode) : jsstring :=
  match c with
  | invalid_type => lit "invalid_type"
  | too_small => lit "too_small"
  | too_big => lit "too_big"
  | invalid_string => lit "invalid_string"
  end.

End z.

(** ** The form schema (lines 24-35) *)

(** [a-zA-Z0-9] *)
Definition alnum_ranges : list (code_unit * code_unit) :=
  [(97, 122); (65, 90); (48, 57)]%N.

(** [/^[a-zA-Z0-9]+$/] *)
Definition subdomain_pattern : Regex.regex :=
  Regex.Plus (Regex.Class alnum_ranges).

Definition name_too_short : jsstring :=
  lit "Project name must be atleast 3 characters long".
Definition name_too_long : jsstring :=
  lit "Project name must be less than 17 characters".
Definition subdomain_too_short : jsstring :=
  lit "Project subdomain must be atleast 3 characters long".
Definition subdomain_bad_pattern : jsstring :=
  lit "Project subdomain must only contain letters and numbers".

Definition name_schema : z.ZodString :=
  [z.min 3 name_too_short; z.max 17 name_too_long].

Definition subdomain_schema : z.ZodString :=
  [z.min 3 subdomain_too_short; z.regex subdomain_pattern subdomain_bad_pattern].

Definition formSchema : z.ZodObject :=
  [(lit "name", name_schema); (lit "subdomain", subdomain_schema)].

(** [z.infer<typeof formSchema>] *)
Record FormValues : Type := mkValues {
  name : jsstring;
  subdomain : jsstring
}.

(** Property lookup on a value of that type. *)
Definition property (values : FormValues) (key : jsstring) : option jsstring :=
  if decide (key = lit "name") then Some (name values)
  else if decide (key = lit "subdomain") then Some (subdomain values)
  else None.

(** ** The resolver

    [zodResolver(formSchema)] turns the issues of a failed parse into the
    error object of the form: one entry per field path, holding the message
    and code of the FIRST issue on that path (the form is created without
    [criteriaMode], so later issues on a path that already has an entry are
    dropped). *)

Record FieldError : Type := mkFieldError {
  type : jsstring;
  message : jsstring
}.

Definition join_path (pth : list jsstring) : jsstring :=
  match pth with
  | [] => []
  | k :: rest => k ++ flat_map (fun k' => lit "." ++ k') rest
  end.

(** The form error made of an issue: its message, and its code as type. *)
Definition issue_error (issue : z.ZodIssue) : FieldError :=
  mkFieldError (z.code_name (z.code issue)) (z.message issue).

Definition add_issue (errors : gmap jsstring FieldError) (issue : z.ZodIssue)
    : gmap jsstring FieldError :=
  match errors !! join_path (z.path issue) with
  | Some _ => errors
  | None =>
      <[join_path (z.path issue) := issue_error issue]> errors
  end.

Definition parseErrorSchema (issues : list z.ZodIssue) : gmap jsstring FieldError :=
  foldl add_issue ∅ issues.

Definition zodResolver (schema : z.ZodObject) (values : FormValues)
    : gmap jsstring FieldError :=
  parseErrorSchema (z.object_parse schema (property values)).

(** ** JavaScript values and truthiness

    The values an identifier or a thrown non-error can be.  Numbers are
    the integral ones and NaN; an object is an opaque reference. *)

Inductive JsVal : Type :=
| JUndefined
| JNull
| JBool (b : bool)
| JNumber (n : Z)
| JNaN
| JString (s : jsstring)
| JObject (ref : nat).

(** ToBoolean *)
Definition truthy (v : JsVal) : bool :=
  match v with
  | JUndefined | JNull | JNaN => false
  | JBool b => b
  | JNumber n => negb (n =? 0)%Z
  | JString s => negb (bool_decide (s = []))
  | JObject _ => true
  end.

(** ** The mutation hook (lines 20, 44) *)

(** The variables handed to the mutation. *)
Module Variables.
Record t : Type := mk { name : jsstring; subdomain : jsstring }.
End Variables.

(** Modelled from the spec: the result type of the mutation of
    [@/hooks/mutation/project], which is not among the sources:
    [createProjectAsync(input) -> { createProject?: { id, subdomain } }].
    The identifier is any value; the subdomain is a string. *)
Module Project.
Record t : Type := mk { id : JsVal; subdomain : jsstring }.
End Project.

Record CreateProjectMutation : Type := mkResult {
  createProject : option Project.t
}.

(** What a [catch] clause can receive: an instance of [Error], which has a
    message, or any other value. *)
Inductive Thrown : Type :=
| ErrorInstance (msg : jsstring)
| NonError (value : JsVal).

(** What becomes of a promise: it is fulfilled, it is rejected, or it
    stays pending for ever. *)
Inductive Promise (A : Type) : Type :=
| Fulfilled (value : A)
| Rejected (reason : Thrown)
| Pending.
Arguments Fulfilled {A} value.
Arguments Rejected {A} reason.
Arguments Pending {A}.

(** ** The state the component acts on *)

Inductive ToastType : Type := ToastLoading | ToastSuccess | ToastError.

Record Toast : Type := mkToast {
  toast_type : ToastType;
  toast_message : jsstring
}.

(** The calls the component makes on its collaborators, as made. *)
Inductive Call : Type :=
| call_setLoading (value : bool)
| call_toast_loading (msg id : jsstring)
| call_toast_success (msg id : jsstring)
| call_toast_error (msg id : jsstring)
| call_toast_remove (id : jsstring)
| call_createProjectAsync (variables : Variables.t)
| call_router_push (url : jsstring)
| call_closeCreateProjectModal
| call_form_setError (field : jsstring) (error : FieldError).

Record World : Type := mkWorld {
  (** [useState(false)] of line 38 *)
  loading : bool;
  (** the toasts on screen, by id *)
  toasts : gmap jsstring Toast;
  (** the routes pushed on the router, oldest first *)
  pushed : list jsstring;
  (** the modal store *)
  isCreateProjectModalOpen : bool;
  (** the form: field values and field errors *)
  values : FormValues;
  errors : gmap jsstring FieldError;
  (** every call made so far, oldest first *)
  calls : list Call
}.

Definition log (c : Call) (w : World) : World :=
  mkWorld (loading w) (toasts w) (pushed w) (isCreateProjectModalOpen w)
          (values w) (errors w) (calls w ++ [c]).

Definition set_loading (b : bool) (w : World) : World :=
  mkWorld b (toasts w) (pushed w) (isCreateProjectModalOpen w)
          (values w) (errors w) (calls w).

Definition set_toasts (t : gmap jsstring Toast) (w : World) : World :=
  mkWorld (loading w) t (pushed w) (isCreateProjectModalOpen w)
          (values w) (errors w) (calls w).

Definition set_pushed (p : list jsstring) (w : World) : World :=
  mkWorld (loading w) (toasts w) p (isCreateProjectModalOpen w)
          (values w) (errors w) (calls w).

Definition set_open (b : bool) (w : World) : World :=
  mkWorld (loading w) (toasts w) (pushed w) b
          (values w) (errors w) (calls w).

Definition set_errors (e : gmap jsstring FieldError) (w : World) : World :=
  mkWorld (loading w) (toasts w) (pushed w) (isCreateProjectModalOpen w)
          (values w) e (calls w).

(** ** Computations: state and exceptions *)

(** How a computation ends: it returns, it throws, or it is suspended at
    an [await] that never resumes. *)
Inductive Completion (A : Type) : Type :=
| Normal (value : A)
| Throw (reason : Thrown)
| Suspended.
Arguments Normal {A} value.
Arguments Throw {A} reason.
Arguments Suspended {A}.

Definition M (A : Type) : Type := World -> Completion A * World.

#[export] Instance M_ret : MRet M := fun A a w => (Normal a, w).

#[export] Instance M_bind : MBind M := fun A B f m w =>
  match m w with
  | (Normal a, w') => f a w'
  | (Throw e, w') => (Throw e, w')
  | (Suspended, w') => (Suspended, w')
  end.

(** A state change that cannot throw. *)
Definition act (f : World -> World) : M unit := fun w => (Normal tt, f w).

(** [try { body } catch (error) { handler error }] *)
Definition try_catch {A} (body : M A) (handler : Thrown -> M A) : M A := fun w =>
  match body w with
  | (Normal a, w') => (Normal a, w')
  | (Throw e, w') => handler e w'
  | (Suspended, w') => (Suspended, w')
  end.

(** [try { body } finally { cleanup }]: the cleanup runs when the body
    returns and when it throws, and the completion of the body is kept
    unless the cleanup itself throws; a body that is suspended never
    reaches the cleanup. *)
Definition try_finally {A} (body : M A) (cleanup : M unit) : M A := fun w =>
  match body w with
  | (Suspended, w') => (Suspended, w')
  | (r, w') =>
      match cleanup w' with
      | (Normal _, w'') => (r, w'')
      | (Throw e, w'') => (Throw e, w'')
      | (Suspended, w'') => (Suspended, w'')
      end
  end.

(** [await p] *)
Definition await {A} (p : Promise A) : M A := fun w =>
  match p with
  | Fulfilled a => (Normal a, w)
  | Rejected e => (Throw e, w)
  | Pending => (Suspended, w)
  end.

(** The world a computation leaves, and how it completed. *)
Definition exec {A} (m : M A) (w : World) : World := snd (m w).
Definition completion {A} (m : M A) (w : World) : Completion A := fst (m w).

(** ** The collaborators *)

(** [setLoading] of line 38. *)
Definition setLoading (value : bool) : M unit :=
  act (fun w => set_loading value (log (call_setLoading value) w)).

(** The toast store: a toast shown under an id replaces the one already
    shown under that id; [remove] takes it off the screen. *)
Module toast.
Definition loading (msg id : jsstring) : M unit :=
  act (fun w => set_toasts (<[id := mkToast ToastLoading msg]> (toasts w))
                           (log (call_toast_loading msg id) w)).
Definition success (msg id : jsstring) : M unit :=
  act (fun w => set_toasts (<[id := mkToast ToastSuccess msg]> (toasts w))
                           (log (call_toast_success msg id) w)).
Definition error (msg id : jsstring) : M unit :=
  act (fun w => set_toasts (<[id := mkToast ToastError msg]> (toasts w))
                           (log (call_toast_error msg id) w)).
Definition remove (id : jsstring) : M unit :=
  act (fun w => set_toasts (delete id (toasts w)) (log (call_toast_remove id) w)).
End toast.

Module router.
Definition push (url : jsstring) : M unit :=
  act (fun w => set_pushed (pushed w ++ [url]) (log (call_router_push url) w)).
End router.

Module projectModal.
(** Modelled from the spec: the modal store [@/store/useProjectModal] is not
    among the sources; its close request "forces the modal closed", that
    is, it clears the open flag. *)
Definition closeCreateProjectModal : M unit :=
  act (fun w => set_open false (log call_closeCreateProjectModal w)).
End projectModal.

Module form.
(** [form.setError(field, error)]: the entry of [field] in the error object
    of the form becomes [error]. *)
Definition setError (field : jsstring) (error : FieldError) : M unit :=
  act (fun w => set_errors (<[field := error]> (errors w))
                           (log (call_form_setError field error) w)).
End form.

(** ** The component (lines 37-101) *)

Section ProjectModal.

(** [mutateAsync] of the mutation hook: for each variables, what becomes
    of the promise it returns. *)
Variable createProjectAsync : Variables.t -> Promise CreateProjectMutation.

(** [await createProjectAsync(variables)] *)
Definition call_mutation (variables : Variables.t) : M CreateProjectMutation :=
  act (log (call_createProjectAsync variables)) ;;
  await (createProjectAsync variables).

(** Lines 54-95. *)
Definition handleCreateProject (values : FormValues) : M unit :=
  setLoading true ;;
  toast.loading (lit "Creating project...") (lit "create-project") ;;
  try_finally
    (try_catch
       (res ← call_mutation (Variables.mk (name values) (subdomain values)) ;
        (* if (res.createProject?.id) *)
        match createProject res with
        | Some project =>
            if truthy (Project.id project) then
              toast.success (lit "Project created successfully")
                            (lit "create-project") ;;
              router.push (lit "/dashboard/" ++ Project.subdomain project)
            else mret tt
        | None => mret tt
        end ;;
        projectModal.closeCreateProjectModal)
       (fun error =>
          match error with
          | ErrorInstance error_message =>
              let message :=
                if includes error_message
                     (lit "Unique constraint failed on the fields: (`subdomain`)")
                then lit "Project subdomain already exists"
                else error_message in
              form.setError (lit "subdomain") (mkFieldError (lit "custom") message) ;;
              toast.remove (lit "create-project")
          | NonError _ =>
              toast.error (lit "Something went wrong") (lit "create-project") ;;
              projectModal.closeCreateProjectModal
          end))
    (setLoading false).

(** Lines 97-101.  [projects] is [None] while the query of the user's
    projects has produced nothing yet. *)
Definition validateProjectPresence {P : Type} (projects : option (list P)) : M unit :=
  match projects with
  | Some ps =>
      if 0 <? length ps then projectModal.closeCreateProjectModal else mret tt
  | None => mret tt
  end.

(** [form.handleSubmit(handleCreateProject)] of line 111: the resolver runs
    on the current field values; the handler is called only when it
    reports no error, otherwise the errors are put on the form. *)
Definition handleSubmit (onValid : FormValues -> M unit) : M unit := fun w =>
  let errs := zodResolver formSchema (values w) in
  if decide (errs = ∅) then onValid (values w) (set_errors ∅ w)
  else (Normal tt, set_errors errs w).

End ProjectModal.

(** Lines 103-165, as far as the state decides them: whether the modal is
    shown, and which of the two inputs and two buttons are disabled. *)
Record View : Type := mkView {
  modal_isOpen : bool;
  name_input_disabled : bool;
  subdomain_input_disabled : bool;
  cancel_disabled : bool;
  continue_disabled : bool
}.

Definition render (w : World) : View :=
  mkView (isCreateProjectModalOpen w) (loading w) (loading w) (loading w) (loading w).

(** A world to run examples in: the modal is open on an empty form. *)
Definition initial : World :=
  mkWorld false ∅ [] true (mkValues [] []) ∅ [].

(** ** Vocabulary of the statements *)

(** An ASCII letter or digit. *)
Definition is_alnum (c : code_unit) : Prop :=
  (97 <= c <= 122 \/ 65 <= c <= 90 \/ 48 <= c <= 57)%N.

(** The error of the first issue whose path joins to [p]. *)
Fixpoint first_on (p : jsstring) (issues : list z.ZodIssue) : option FieldError :=
  match issues with
  | [] => None
  | issue :: rest =>
      if decide (join_path (z.path issue) = p) then Some (issue_error issue)
      else first_on p rest
  end.

(** [res.createProject?.id] *)
Definition identifier (res : CreateProjectMutation) : JsVal :=
  match createProject res with
  | Some project => Project.id project
  | None => JUndefined
  end.

(** The message the handler puts on the subdomain field for an error
    with message [msg]. *)
Definition field_message (msg : jsstring) : jsstring :=
  if includes msg (lit "Unique constraint failed on the fields: (`subdomain`)")
  then lit "Project subdomain already exists"
  else msg.

(** The values the schema lets through. *)
Definition acceptable (v : FormValues) : Prop :=
  3 <= length (name v) <= 17 /\
  3 <= length (subdomain v) /\ Forall is_alnum (subdomain v).

(** The variables of the calls of the mutation among [cs], in order. *)
Definition mutation_calls (cs : list Call) : list Variables.t :=
  omap (fun c => match c with
                 | call_createProjectAsync variables => Some variables
                 | _ => None
                 end) cs.

#[local] Abbreviation key := (lit "create-project").
#[local] Abbreviation variables_of v := (Variables.mk (name v) (subdomain v)).
#[local] Abbreviation in_progress := (mkToast ToastLoading (lit "Creating project...")).
#[local] Abbreviation succeeded := (mkToast ToastSuccess (lit "Project created successfully")).
#[local] Abbreviation failed := (mkToast ToastError (lit "Something went wrong")).

(** * Properties *)

Arguments lit : simpl never.

(** ** Strings *)

Lemma prefix_of_spec (p s : jsstring) :
  prefix_of p s = true <-> exists rest, s = p ++ rest.
Proof.
  revert s. induction p as [|a p IH]; intros s; simpl.
  - split; [intros _; by exists s | done].
  - destruct s as [|b s].
    + split; [done | intros [rest Hrest]; discriminate].
    + rewrite andb_true_iff, N.eqb_eq, IH. split.
      * intros [-> [rest ->]]. by exists rest.
      * intros [rest Hrest]. injection Hrest as <- ->. eauto.
Qed.

(** [includes] finds exactly the strings that contain the needle. *)
Lemma includes_spec (s needle : jsstring) :
  includes s needle = true <-> exists before after, s = before ++ needle ++ after.
Proof.
  induction s as [|c s IH]; simpl.
  - rewrite orb_false_r, prefix_of_spec. split.
    + intros [rest Hrest]. by exists [], rest.
    + intros [before [after H]]. symmetry in H.
      apply app_eq_nil in H as [-> H]. by exists after.
  - rewrite orb_true_iff, prefix_of_spec, IH. split.
    + intros [[rest Hrest] | [before [after Hs]]].
      * by exists [], rest.
      * exists (c :: before), after. by rewrite Hs.
    + intros [[|b before] [after Hs]].
      * left. by exists after.
      * right. injection Hs as _ Hs. by exists before, after.
Qed.

(** ** Regular expressions: [test] decides [lang] *)

Section RegexFacts.
Import Regex.

Lemma lang_void_inv (s : jsstring) : ~ lang Void s.
Proof. inversion 1. Qed.

Lemma lang_eps_inv (s : jsstring) : lang Eps s -> s = [].
Proof. by inversion 1. Qed.

Lemma lang_class_inv ranges (s : jsstring) :
  lang (Class ranges) s -> exists c, s = [c] /\ in_ranges ranges c = true.
Proof. inversion 1; subst; eauto. Qed.

Lemma lang_cat_inv r1 r2 (s : jsstring) :
  lang (Cat r1 r2) s -> exists s1 s2, s = s1 ++ s2 /\ lang r1 s1 /\ lang r2 s2.
Proof. inversion 1; subst; eauto 6. Qed.

Lemma lang_alt_inv r1 r2 (s : jsstring) :
  lang (Alt r1 r2) s -> lang r1 s \/ lang r2 s.
Proof. inversion 1; subst; auto. Qed.

Lemma nullable_spec (r : regex) : nullable r = true <-> lang r [].
Proof.
  induction r as [| |ranges|r1 IH1 r2 IH2|r1 IH1 r2 IH2|r IH]; simpl.
  - split; [done | intros H; by apply lang_void_inv in H].
  - split; [constructor | done].
  - split; [done | intros (c & Hc & _)%lang_class_inv; discriminate].
  - rewrite andb_true_iff, IH1, IH2. split.
    + intros [H1 H2]. apply (lang_cat _ _ [] [] H1 H2).
    + intros (s1 & s2 & Heq & H1 & H2)%lang_cat_inv. symmetry in Heq.
      apply app_eq_nil in Heq as [-> ->]. done.
  - rewrite orb_true_iff, IH1, IH2. split.
    + intros [H|H]; [by apply lang_alt_l | by apply lang_alt_r].
    + apply lang_alt_inv.
  - split; [constructor | done].
Qed.

Lemma deriv_sound (c : code_unit) (r : regex) :
  forall s, lang (deriv c r) s -> lang r (c :: s).
Proof.
  assert (Hcat : forall r1 r2 s,
             (forall s, lang (deriv c r1) s -> lang r1 (c :: s)) ->
             lang (Cat (deriv c r1) r2) s -> lang (Cat r1 r2) (c :: s)).
  { intros r1 r2 s IH1 (s1 & s2 & -> & H1 & H2)%lang_cat_inv.
    apply (lang_cat _ _ (c :: s1) s2); auto. }
  induction r as [| |ranges|r1 IH1 r2 IH2|r1 IH1 r2 IH2|r IH]; simpl; intros s H.
  - by apply lang_void_inv in H.
  - by apply lang_void_inv in H.
  - destruct (in_ranges ranges c) eqn:Hc.
    + apply lang_eps_inv in H as ->. by constructor.
    + by apply lang_void_inv in H.
  - destruct (nullable r1) eqn:Hn; [| by apply Hcat].
    apply lang_alt_inv in H as [H|H]; [by apply Hcat |].
    apply (lang_cat _ _ [] (c :: s)); [by apply nullable_spec | auto].
  - apply lang_alt_inv in H as [H|H]; [apply lang_alt_l | apply lang_alt_r]; auto.
  - apply lang_cat_inv in H as (s1 & s2 & -> & H1 & H2).
    apply (lang_star_cons _ (c :: s1) s2); auto.
Qed.

Lemma deriv_complete (c : code_unit) (r : regex) (s0 : jsstring) :
  lang r s0 -> forall s, s0 = c :: s -> lang (deriv c r) s.
Proof.
  induction 1 as [|ranges c' Hc|r1 r2 s1 s2 H1 IH1 H2 IH2|r1 r2 s' H IH
                 |r1 r2 s' H IH| |r s1 s2 H1 IH1 H2 IH2]; intros s Heq; simpl.
  - discriminate.
  - injection Heq as -> <-. rewrite Hc. constructor.
  - destruct s1 as [|c1 s1]; simpl in Heq.
    + apply nullable_spec in H1 as ->. apply lang_alt_r. auto.
    + injection Heq as -> <-.
      assert (lang (Cat (deriv c r1) r2) (s1 ++ s2)) by (constructor; auto).
      destruct (nullable r1); [by apply lang_alt_l | done].
  - apply lang_alt_l. auto.
  - apply lang_alt_r. auto.
  - discriminate.
  - destruct s1 as [|c1 s1]; simpl in Heq.
    + auto.
    + injection Heq as -> <-. constructor; auto.
Qed.

Lemma deriv_spec (c : code_unit) (r : regex) (s : jsstring) :
  lang (deriv c r) s <-> lang r (c :: s).
Proof. split; [apply deriv_sound | intros H; by eapply deriv_complete]. Qed.

Lemma test_spec (r : regex) (s : jsstring) : test r s = true <-> lang r s.
Proof.
  revert r. induction s as [|c s IH]; intros r; simpl.
  - apply nullable_spec.
  - rewrite IH. apply deriv_spec.
Qed.

(** What [[...]*] and [[...]+] denote. *)
Lemma lang_star_class (ranges : list (code_unit * code_unit)) (s : jsstring) :
  lang (Star (Class ranges)) s <-> Forall (fun c => in_ranges ranges c = true) s.
Proof.
  split.
  - remember (Star (Class ranges)) as r eqn:Hr. intros H.
    induction H as [| | | | | |r s1 s2 H1 _ H2 IH2]; try discriminate.
    + constructor.
    + injection Hr as ->. apply lang_class_inv in H1 as (c & -> & Hc).
      constructor; auto.
  - induction 1 as [|c s Hc _ IH]; [constructor |].
    apply (lang_star_cons _ [c] s); [by constructor | done].
Qed.

Lemma lang_plus_class (ranges : list (code_unit * code_unit)) (s : jsstring) :
  lang (Plus (Class ranges)) s <->
  s <> [] /\ Forall (fun c => in_ranges ranges c = true) s.
Proof.
  unfold Plus. split.
  - intros (s1 & s2 & -> & H1 & H2)%lang_cat_inv.
    apply lang_class_inv in H1 as (c & -> & Hc).
    apply lang_star_class in H2. split; [done |]. constructor; auto.
  - intros [Hne Hall]. destruct Hall as [|c s Hc Hs]; [done |].
    apply (lang_cat _ _ [c] s); [by constructor | by apply lang_star_class].
Qed.

End RegexFacts.

Lemma in_alnum_ranges (c : code_unit) :
  Regex.in_ranges alnum_ranges c = true <-> is_alnum c.
Proof.
  unfold is_alnum, Regex.in_ranges, alnum_ranges. simpl.
  rewrite !orb_true_iff, !andb_true_iff, !N.leb_le. intuition (try discriminate).
Qed.

(** The strings [/^[a-zA-Z0-9]+$/] accepts. *)
Lemma subdomain_pattern_lang (s : jsstring) :
  Regex.lang subdomain_pattern s <-> s <> [] /\ Forall is_alnum s.
Proof.
  unfold subdomain_pattern. rewrite lang_plus_class.
  split; intros [Hne Hall]; (split; [done |]);
    eapply Forall_impl; eauto; intros c; apply in_alnum_ranges.
Qed.

(** ** The resolver keeps the first issue of each field *)

Lemma foldl_add_issue (issues : list z.ZodIssue) :
  forall (acc : gmap jsstring FieldError) (p : jsstring),
    foldl add_issue acc issues !! p =
    match acc !! p with Some e => Some e | None => first_on p issues end.
Proof.
  induction issues as [|issue rest IH]; intros acc p; simpl.
  - by destruct (acc !! p).
  - rewrite IH. unfold add_issue.
    destruct (decide (join_path (z.path issue) = p)) as [->|Hne].
    + destruct (acc !! p) eqn:Hacc; [by rewrite Hacc |].
      by rewrite lookup_insert_eq.
    + destruct (acc !! join_path (z.path issue)); [done |].
      by rewrite lookup_insert_ne.
Qed.

Lemma lookup_parseErrorSchema (issues : list z.ZodIssue) (p : jsstring) :
  parseErrorSchema issues !! p = first_on p issues.
Proof. unfold parseErrorSchema. by rewrite foldl_add_issue, lookup_empty. Qed.

Lemma first_on_app (p : jsstring) (xs ys : list z.ZodIssue) :
  first_on p (xs ++ ys) =
  match first_on p xs with Some e => Some e | None => first_on p ys end.
Proof.
  induction xs as [|x xs IH]; simpl; [done |].
  by destruct (decide (join_path (z.path x) = p)).
Qed.

Lemma join_path_singleton (k : jsstring) : join_path [k] = k.
Proof. simpl. apply app_nil_r. Qed.

Lemma string_parse_path (k : jsstring) (checks : z.ZodString) (data : jsstring) :
  Forall (fun issue => z.path issue = [k]) (z.string_parse [k] checks data).
Proof.
  apply Forall_forall. intros issue Hin.
  apply list_elem_of_omap in Hin as (check & _ & Hrun).
  destruct check as [value msg|value msg|re msg]; simpl in Hrun;
    case_match; by simplify_eq.
Qed.

Lemma first_on_same (k : jsstring) (issues : list z.ZodIssue) :
  Forall (fun issue => z.path issue = [k]) issues ->
  first_on k issues = issue_error <$> head issues.
Proof.
  destruct 1 as [|issue rest Hpath _]; simpl; [done |].
  by rewrite Hpath, join_path_singleton, decide_True.
Qed.

Lemma first_on_other (k p : jsstring) (issues : list z.ZodIssue) :
  k <> p ->
  Forall (fun issue => z.path issue = [k]) issues ->
  first_on p issues = None.
Proof.
  intros Hne. induction 1 as [|issue rest Hpath _ IH]; simpl; [done |].
  by rewrite Hpath, join_path_singleton, decide_False.
Qed.

Lemma name_ne_subdomain : lit "name" <> lit "subdomain".
Proof. by vm_compute. Qed.

Lemma property_name (v : FormValues) : property v (lit "name") = Some (name v).
Proof. unfold property. by rewrite decide_True. Qed.

Lemma property_subdomain (v : FormValues) :
  property v (lit "subdomain") = Some (subdomain v).
Proof.
  unfold property. rewrite decide_False by (symmetry; apply name_ne_subdomain).
  by rewrite decide_True.
Qed.

(** The issues of the whole form are those of the name followed by those
    of the subdomain. *)
Lemma formSchema_issues (v : FormValues) :
  z.object_parse formSchema (property v) =
  z.string_parse [lit "name"] name_schema (name v) ++
  z.string_parse [lit "subdomain"] subdomain_schema (subdomain v).
Proof.
  unfold z.object_parse, formSchema. cbn [flat_map fst snd].
  by rewrite property_name, property_subdomain, app_nil_r.
Qed.

Lemma resolver_name (v : FormValues) :
  zodResolver formSchema v !! lit "name" =
  issue_error <$> head (z.string_parse [lit "name"] name_schema (name v)).
Proof.
  unfold zodResolver. rewrite lookup_parseErrorSchema, formSchema_issues, first_on_app.
  rewrite (first_on_same (lit "name")) by apply string_parse_path.
  destruct (head _); [done |]. cbn [fmap option_fmap option_map].
  apply (first_on_other (lit "subdomain")); [| apply string_parse_path].
  symmetry. apply name_ne_subdomain.
Qed.

Lemma resolver_subdomain (v : FormValues) :
  zodResolver formSchema v !! lit "subdomain" =
  issue_error <$> head (z.string_parse [lit "subdomain"] subdomain_schema (subdomain v)).
Proof.
  unfold zodResolver. rewrite lookup_parseErrorSchema, formSchema_issues, first_on_app.
  rewrite (first_on_other (lit "name") (lit "subdomain"));
    [| apply name_ne_subdomain | apply string_parse_path].
  apply first_on_same, string_parse_path.
Qed.

(** ** The name field *)

(** C5: the name is accepted exactly when its length is in [3, 17],
    whatever code units it is made of; a shorter name gets the fixed
    "too short" message and a longer one the fixed "too long" message. *)
Theorem name_validation (v : FormValues) :
  let result := zodResolver formSchema v !! lit "name" in
  (result = None <-> 3 <= length (name v) <= 17) /\
  (length (name v) < 3 -> message <$> result = Some name_too_short) /\
  (17 < length (name v) -> message <$> result = Some name_too_long).
Proof.
  simpl. rewrite resolver_name. unfold z.string_parse, name_schema. simpl.
  destruct (Nat.ltb_spec (length (name v)) 3) as [Hlt|Hge];
    destruct (Nat.ltb_spec 17 (length (name v))) as [Hgt|Hle]; simpl;
    (split; [split; [try done; lia | try done; lia] | split; intros; try done; lia]).
Qed.

(** The theorem on names of length 2, 3, 17 and 18. *)
Lemma name_validation_witness :
  zodResolver formSchema (mkValues (lit "ab") (lit "acme")) !! lit "name"
    = Some (mkFieldError (lit "too_small") name_too_short) /\
  zodResolver formSchema (mkValues (lit "a b") []) !! lit "name" = None /\
  zodResolver formSchema (mkValues (lit "seventeen chars !") []) !! lit "name" = None /\
  message <$> zodResolver formSchema (mkValues (lit "eighteen chars !!!") []) !! lit "name"
    = Some name_too_long.
Proof.
  split; [by vm_compute |].
  split; [apply (name_validation (mkValues (lit "a b") [])); simpl; lia |].
  split; [apply (name_validation (mkValues (lit "seventeen chars !") [])); simpl; lia |].
  apply (name_validation (mkValues (lit "eighteen chars !!!") [])); simpl; lia.
Defined.

(** ** The subdomain field *)

Lemma subdomain_messages_differ : subdomain_too_short <> subdomain_bad_pattern.
Proof. by vm_compute. Qed.

(** C6: the subdomain is accepted exactly when it has at least 3 code
    units and matches [^[a-zA-Z0-9]+$] (it is a non-empty run of ASCII
    letters and digits); each rule that fails contributes its own fixed
    message to the issues of the parse, and when both fail the form shows
    the message of the length rule, which is declared first. *)
Theorem subdomain_validation (v : FormValues) :
  let s := subdomain v in
  let result := zodResolver formSchema v !! lit "subdomain" in
  let messages := z.message <$> z.string_parse [lit "subdomain"] subdomain_schema s in
  (result = None <-> 3 <= length s /\ Regex.lang subdomain_pattern s) /\
  (Regex.lang subdomain_pattern s <-> s <> [] /\ Forall is_alnum s) /\
  (length s < 3 <-> subdomain_too_short ∈ messages) /\
  (~ Regex.lang subdomain_pattern s <-> subdomain_bad_pattern ∈ messages) /\
  (length s < 3 -> message <$> result = Some subdomain_too_short) /\
  (3 <= length s -> ~ Regex.lang subdomain_pattern s ->
   message <$> result = Some subdomain_bad_pattern).
Proof.
  cbn zeta. rewrite resolver_subdomain.
  pose proof subdomain_messages_differ as Hdiff.
  pose proof (subdomain_pattern_lang (subdomain v)) as Hlang.
  pose proof (test_spec subdomain_pattern (subdomain v)) as Htest.
  unfold z.string_parse, subdomain_schema. cbn [omap list_omap z.run_check].
  destruct (Nat.ltb_spec (length (subdomain v)) 3) as [Hlt|Hge];
    destruct (Regex.test subdomain_pattern (subdomain v)) eqn:Ht;
    cbn [head fmap option_fmap option_map list_fmap z.message message issue_error].
  all: first
    [ assert (Regex.lang subdomain_pattern (subdomain v)) by (by apply Htest)
    | assert (~ Regex.lang subdomain_pattern (subdomain v)) by (by rewrite <- Htest) ].
  all: repeat split; try done; try lia; try tauto.
  all: try (intros _; apply list_elem_of_here).
  all: try (intros _; apply list_elem_of_further, list_elem_of_here).
  all: try (intros Hin; by apply not_elem_of_nil in Hin).
  all: intros Hin%list_elem_of_singleton; by destruct Hdiff.
Qed.

(** The theorem on ["a-"] (both rules fail: the length message is shown),
    ["abc-"] (the pattern message) and ["abc1"] (accepted). *)
Lemma subdomain_validation_witness :
  message <$> zodResolver formSchema (mkValues [] (lit "a-")) !! lit "subdomain"
    = Some subdomain_too_short /\
  message <$> zodResolver formSchema (mkValues [] (lit "abc-")) !! lit "subdomain"
    = Some subdomain_bad_pattern /\
  zodResolver formSchema (mkValues [] (lit "abc1")) !! lit "subdomain" = None.
Proof.
  split; [apply (subdomain_validation (mkValues [] (lit "a-"))); simpl; lia |].
  split.
  - apply (subdomain_validation (mkValues [] (lit "abc-"))); [simpl; lia |].
    intros H%test_spec. by vm_compute in H.
  - apply (subdomain_validation (mkValues [] (lit "abc1"))).
    split; [simpl; lia | by apply test_spec].
Defined.

(** ** The submission workflow, outcome by outcome *)

Arguments includes : simpl never.
Arguments truthy : simpl never.

Create HintDb workflow.
#[local] Hint Unfold exec completion handleCreateProject call_mutation setLoading
  toast.loading toast.success toast.error toast.remove router.push
  projectModal.closeCreateProjectModal form.setError validateProjectPresence
  try_finally try_catch await act mbind M_bind mret M_ret : workflow.

(** Runs the handler symbolically up to the point where the promise of
    the mutation settles, then along the branch that [Hm] selects. *)
Ltac run_with Hm :=
  autounfold with workflow; rewrite Hm;
  cbv beta iota zeta delta [createProject].

Ltac tidy_world :=
  cbv beta iota zeta delta
    [set_loading set_toasts set_pushed set_open set_errors log
     loading toasts pushed isCreateProjectModalOpen values errors calls];
  rewrite ?insert_insert_eq, ?delete_insert_eq, <- ?app_assoc; cbn [app];
  try reflexivity.

Lemma run_fulfilled_truthy mut v w project :
  mut (variables_of v) = Fulfilled (mkResult (Some project)) ->
  truthy (Project.id project) = true ->
  handleCreateProject mut v w =
  (Normal tt,
   mkWorld false (<[key := succeeded]> (toasts w))
     (pushed w ++ [lit "/dashboard/" ++ Project.subdomain project]) false
     (values w) (errors w)
     (calls w ++
      [call_setLoading true;
       call_toast_loading (lit "Creating project...") key;
       call_createProjectAsync (variables_of v);
       call_toast_success (lit "Project created successfully") key;
       call_router_push (lit "/dashboard/" ++ Project.subdomain project);
       call_closeCreateProjectModal;
       call_setLoading false])).
Proof. intros Hm Hid. run_with Hm. rewrite Hid. by tidy_world. Qed.

Lemma run_fulfilled_falsy mut v w res :
  mut (variables_of v) = Fulfilled res ->
  truthy (identifier res) = false ->
  handleCreateProject mut v w =
  (Normal tt,
   mkWorld false (<[key := in_progress]> (toasts w)) (pushed w) false
     (values w) (errors w)
     (calls w ++
      [call_setLoading true;
       call_toast_loading (lit "Creating project...") key;
       call_createProjectAsync (variables_of v);
       call_closeCreateProjectModal;
       call_setLoading false])).
Proof.
  intros Hm Hid. run_with Hm. destruct res as [[project|]].
  - change (truthy (Project.id project) = false) in Hid. rewrite Hid. by tidy_world.
  - by tidy_world.
Qed.

Lemma run_rejected_error mut v w msg :
  mut (variables_of v) = Rejected (ErrorInstance msg) ->
  handleCreateProject mut v w =
  (Normal tt,
   mkWorld false (delete key (toasts w)) (pushed w) (isCreateProjectModalOpen w)
     (values w)
     (<[lit "subdomain" := mkFieldError (lit "custom") (field_message msg)]> (errors w))
     (calls w ++
      [call_setLoading true;
       call_toast_loading (lit "Creating project...") key;
       call_createProjectAsync (variables_of v);
       call_form_setError (lit "subdomain")
         (mkFieldError (lit "custom") (field_message msg));
       call_toast_remove key;
       call_setLoading false])).
Proof. intros Hm. run_with Hm. unfold field_message. by tidy_world. Qed.

Lemma run_rejected_other mut v w value :
  mut (variables_of v) = Rejected (NonError value) ->
  handleCreateProject mut v w =
  (Normal tt,
   mkWorld false (<[key := failed]> (toasts w)) (pushed w) false
     (values w) (errors w)
     (calls w ++
      [call_setLoading true;
       call_toast_loading (lit "Creating project...") key;
       call_createProjectAsync (variables_of v);
       call_toast_error (lit "Something went wrong") key;
       call_closeCreateProjectModal;
       call_setLoading false])).
Proof. intros Hm. run_with Hm. by tidy_world. Qed.

Lemma identifier_truthy res :
  truthy (identifier res) = true ->
  exists project, createProject res = Some project /\ truthy (Project.id project) = true.
Proof.
  unfold identifier. destruct (createProject res) as [project|]; [eauto |].
  by vm_compute.
Qed.

(** ** The submission workflow: the properties of the specification

    In the statements [key] is the toast id ["create-project"],
    [variables_of v] the variables [{name, subdomain}] built from the
    submitted values, and [in_progress], [succeeded], [failed] the three
    toasts the handler shows. *)

(** C1: whenever the mutation resolves, whatever the result, the close of
    the modal is requested, after the identifier check and before the
    loading flag is cleared; the success toast and the navigation are
    requested only for a truthy identifier: with an absent or falsy one
    nothing happens between the mutation and the close, no route is
    pushed and the toast under the key is still the in-progress one. *)
Theorem close_on_every_result mut v w res :
  mut (variables_of v) = Fulfilled res ->
  let w' := exec (handleCreateProject mut v) w in
  isCreateProjectModalOpen w' = false /\
  (exists checked,
     calls w' =
       calls w ++
       [call_setLoading true;
        call_toast_loading (lit "Creating project...") key;
        call_createProjectAsync (variables_of v)] ++
       checked ++ [call_closeCreateProjectModal; call_setLoading false] /\
     (truthy (identifier res) = false -> checked = []) /\
     (truthy (identifier res) = true ->
      exists project,
        createProject res = Some project /\
        checked =
          [call_toast_success (lit "Project created successfully") key;
           call_router_push (lit "/dashboard/" ++ Project.subdomain project)])) /\
  (truthy (identifier res) = false ->
   pushed w' = pushed w /\ toasts w' !! key = Some in_progress).
Proof.
  intros Hm. cbv zeta. unfold exec.
  destruct (truthy (identifier res)) eqn:Hid.
  - destruct (identifier_truthy res Hid) as (project & Hres & Hp).
    destruct res as [cp]. cbn in Hres. subst cp.
    rewrite (run_fulfilled_truthy mut v w project Hm Hp). cbn [snd].
    split; [done |]. split; [| done].
    exists [call_toast_success (lit "Project created successfully") key;
            call_router_push (lit "/dashboard/" ++ Project.subdomain project)].
    split; [reflexivity |]. split; [done |]. intros _. by exists project.
  - rewrite (run_fulfilled_falsy mut v w res Hm Hid). cbn [snd].
    split; [done |]. split.
    + exists []. by repeat split.
    + intros _. split; [done |]. cbn [toasts]. apply lookup_insert_eq.
Qed.

(** The theorem on a result without [createProject]: closed, no route. *)
Lemma close_on_every_result_witness :
  let w' := exec (handleCreateProject (fun _ => Fulfilled (mkResult None))
                    (mkValues (lit "My project") (lit "acme"))) initial in
  isCreateProjectModalOpen w' = false /\ pushed w' = [].
Proof.
  destruct (close_on_every_result (fun _ => Fulfilled (mkResult None))
              (mkValues (lit "My project") (lit "acme")) initial (mkResult None)
              eq_refl) as (Hclosed & _ & Hfalsy).
  split; [exact Hclosed |]. by apply Hfalsy.
Defined.

(** C2: when the mutation resolves with a project whose id is truthy, the
    success toast takes the place of the in-progress one under the same
    key, the route [/dashboard/] followed by the subdomain OF THE RESULT
    is pushed, and the modal is closed. *)
Theorem fulfilled_with_identifier mut v w project :
  mut (variables_of v) = Fulfilled (mkResult (Some project)) ->
  truthy (Project.id project) = true ->
  let w' := exec (handleCreateProject mut v) w in
  toasts w' = <[key := succeeded]> (toasts w) /\
  toasts w' !! key = Some succeeded /\
  pushed w' = pushed w ++ [lit "/dashboard/" ++ Project.subdomain project] /\
  isCreateProjectModalOpen w' = false /\
  calls w' =
    calls w ++
    [call_setLoading true;
     call_toast_loading (lit "Creating project...") key;
     call_createProjectAsync (variables_of v);
     call_toast_success (lit "Project created successfully") key;
     call_router_push (lit "/dashboard/" ++ Project.subdomain project);
     call_closeCreateProjectModal;
     call_setLoading false].
Proof.
  intros Hm Hid. cbv zeta. unfold exec.
  rewrite (run_fulfilled_truthy mut v w project Hm Hid). cbn [snd].
  repeat split. cbn [toasts]. apply lookup_insert_eq.
Qed.

(** The theorem on the result [{createProject: {id: "p1", subdomain:
    "acme"}}] for a form submitted with another subdomain. *)
Lemma fulfilled_with_identifier_witness :
  let mut := fun _ : Variables.t =>
    Fulfilled (mkResult (Some (Project.mk (JString (lit "p1")) (lit "acme")))) in
  let w' := exec (handleCreateProject mut (mkValues (lit "My project") (lit "other")))
                 initial in
  pushed w' = [lit "/dashboard/acme"] /\ isCreateProjectModalOpen w' = false.
Proof.
  destruct (fulfilled_with_identifier
              (fun _ => Fulfilled (mkResult (Some (Project.mk (JString (lit "p1")) (lit "acme")))))
              (mkValues (lit "My project") (lit "other")) initial
              (Project.mk (JString (lit "p1")) (lit "acme")) eq_refl eq_refl)
    as (_ & _ & Hpushed & Hclosed & _).
  split; [exact Hpushed | exact Hclosed].
Defined.

(** C3: when the mutation throws an [Error], the subdomain field gets the
    error of type custom whose message is the fixed "already exists" text
    if the message of the error contains the uniqueness text, and the
    message of the error itself otherwise; the toast under the key is
    removed, no success or error toast is shown, and the open flag of the
    modal is what it was. *)
Theorem rejected_with_error mut v w msg :
  mut (variables_of v) = Rejected (ErrorInstance msg) ->
  let w' := exec (handleCreateProject mut v) w in
  let conflict :=
    exists before after,
      msg = before ++ lit "Unique constraint failed on the fields: (`subdomain`)" ++ after in
  (conflict ->
   errors w' !! lit "subdomain" =
   Some (mkFieldError (lit "custom") (lit "Project subdomain already exists"))) /\
  (~ conflict ->
   errors w' !! lit "subdomain" = Some (mkFieldError (lit "custom") msg)) /\
  toasts w' = delete key (toasts w) /\
  toasts w' !! key = None /\
  isCreateProjectModalOpen w' = isCreateProjectModalOpen w /\
  exists error,
    calls w' =
      calls w ++
      [call_setLoading true;
       call_toast_loading (lit "Creating project...") key;
       call_createProjectAsync (variables_of v);
       call_form_setError (lit "subdomain") error;
       call_toast_remove key;
       call_setLoading false].
Proof.
  intros Hm. cbv zeta. unfold exec.
  rewrite (run_rejected_error mut v w msg Hm). cbn [snd errors toasts calls
    isCreateProjectModalOpen].
  rewrite lookup_insert_eq, lookup_delete_eq. unfold field_message.
  split; [| split].
  - intros Hc%includes_spec. by rewrite Hc.
  - intros Hc. destruct (includes msg _) eqn:Hi; [| done].
    by apply includes_spec in Hi.
  - repeat split. by eexists.
Qed.

(** The theorem on the two errors of the specification: the uniqueness
    message and ["Network unreachable"]. *)
Lemma rejected_with_error_witness :
  let run := fun msg =>
    exec (handleCreateProject (fun _ => Rejected (ErrorInstance msg))
            (mkValues (lit "My project") (lit "acme"))) initial in
  message <$> errors
      (run (lit "Unique constraint failed on the fields: (`subdomain`)"))
      !! lit "subdomain"
    = Some (lit "Project subdomain already exists") /\
  message <$> errors (run (lit "Network unreachable")) !! lit "subdomain"
    = Some (lit "Network unreachable") /\
  isCreateProjectModalOpen (run (lit "Network unreachable")) = true.
Proof.
  cbv zeta. split; [| split].
  - destruct (rejected_with_error
                (fun _ => Rejected (ErrorInstance
                   (lit "Unique constraint failed on the fields: (`subdomain`)")))
                (mkValues (lit "My project") (lit "acme")) initial _ eq_refl)
      as (Hconflict & _).
    rewrite Hconflict; [done |]. by exists [], [].
  - destruct (rejected_with_error
                (fun _ => Rejected (ErrorInstance (lit "Network unreachable")))
                (mkValues (lit "My project") (lit "acme")) initial _ eq_refl)
      as (_ & Hother & _).
    rewrite Hother; [done |]. intros Hc%includes_spec. by vm_compute in Hc.
  - apply (rejected_with_error
             (fun _ => Rejected (ErrorInstance (lit "Network unreachable")))
             (mkValues (lit "My project") (lit "acme")) initial _ eq_refl).
Defined.

(** C4: when the mutation throws a value that is not an [Error], the
    generic failure toast is shown under the key and the modal is closed. *)
Theorem rejected_with_non_error mut v w value :
  mut (variables_of v) = Rejected (NonError value) ->
  let w' := exec (handleCreateProject mut v) w in
  toasts w' = <[key := failed]> (toasts w) /\
  toasts w' !! key = Some failed /\
  isCreateProjectModalOpen w' = false /\
  calls w' =
    calls w ++
    [call_setLoading true;
     call_toast_loading (lit "Creating project...") key;
     call_createProjectAsync (variables_of v);
     call_toast_error (lit "Something went wrong") key;
     call_closeCreateProjectModal;
     call_setLoading false].
Proof.
  intros Hm. cbv zeta. unfold exec.
  rewrite (run_rejected_other mut v w value Hm). cbn [snd].
  repeat split. cbn [toasts]. apply lookup_insert_eq.
Qed.

(** The theorem on a promise rejected with [undefined]. *)
Lemma rejected_with_non_error_witness :
  let w' := exec (handleCreateProject (fun _ => Rejected (NonError JUndefined))
                    (mkValues (lit "My project") (lit "acme"))) initial in
  toasts w' !! key = Some failed /\ isCreateProjectModalOpen w' = false.
Proof.
  destruct (rejected_with_non_error (fun _ => Rejected (NonError JUndefined))
              (mkValues (lit "My project") (lit "acme")) initial JUndefined eq_refl)
    as (_ & Htoast & Hclosed & _).
  split; [exact Htoast | exact Hclosed].
Defined.

(** Splits the calls made between the first and the last one off a
    concrete list of calls. *)
Ltac bracketed :=
  do 2 (split; [done |]);
  match goal with
  | |- exists between, _ ++ _ :: ?made = _ /\ _ => exists (removelast made)
  end;
  cbn [removelast]; split; [reflexivity | repeat constructor; discriminate].

(** C8: on every path on which the submission completes, that is,
    whenever the promise of the mutation settles (resolved with or without
    a usable identifier, rejected with an [Error], rejected with anything
    else), the handler returns normally with the loading flag cleared; the
    first call it makes sets the flag, the last one clears it, and nothing
    in between touches it. *)
Theorem loading_is_reset mut v w :
  mut (variables_of v) <> Pending ->
  let w' := exec (handleCreateProject mut v) w in
  loading w' = false /\
  completion (handleCreateProject mut v) w = Normal tt /\
  exists between,
    calls w' = calls w ++ call_setLoading true :: between ++ [call_setLoading false] /\
    Forall (fun c => forall value, c <> call_setLoading value) between.
Proof.
  intros Hsettles. cbv zeta. unfold exec, completion.
  destruct (mut (variables_of v)) as [res|[msg|value]|] eqn:Hm; [| | | done].
  - destruct (truthy (identifier res)) eqn:Hid.
    + destruct (identifier_truthy res Hid) as (project & Hres & Hp).
      destruct res as [cp]. cbn in Hres. subst cp.
      rewrite (run_fulfilled_truthy mut v w project Hm Hp). cbn [fst snd loading calls].
      by bracketed.
    + rewrite (run_fulfilled_falsy mut v w res Hm Hid). cbn [fst snd loading calls].
      by bracketed.
  - rewrite (run_rejected_error mut v w msg Hm). cbn [fst snd loading calls].
    by bracketed.
  - rewrite (run_rejected_other mut v w value Hm). cbn [fst snd loading calls].
    by bracketed.
Qed.

(** The theorem on a mutation that throws [undefined], started with the
    flag already set. *)
Lemma loading_is_reset_witness :
  let mut := fun _ : Variables.t => @Rejected CreateProjectMutation (NonError JUndefined) in
  let v := mkValues (lit "My project") (lit "acme") in
  let w := mkWorld true ∅ [] true v ∅ [] in
  loading (exec (handleCreateProject mut v) w) = false /\
  completion (handleCreateProject mut v) w = Normal tt.
Proof.
  cbv zeta.
  destruct (loading_is_reset
              (fun _ => Rejected (NonError JUndefined))
              (mkValues (lit "My project") (lit "acme"))
              (mkWorld true ∅ [] true (mkValues (lit "My project") (lit "acme")) ∅ []))
    as (Hloading & Hreturns & _); [discriminate |].
  split; [exact Hloading | exact Hreturns].
Defined.

(** The path that does not complete: while the promise stays pending the
    handler is suspended at the [await], with the flag set and the
    in-progress toast on screen. *)
Lemma run_pending mut v w :
  mut (variables_of v) = Pending ->
  handleCreateProject mut v w =
  (Suspended,
   mkWorld true (<[key := in_progress]> (toasts w)) (pushed w)
     (isCreateProjectModalOpen w) (values w) (errors w)
     (calls w ++
      [call_setLoading true;
       call_toast_loading (lit "Creating project...") key;
       call_createProjectAsync (variables_of v)])).
Proof. intros Hm. run_with Hm. by tidy_world. Qed.

(** C10: when the mutation throws an [Error], the form changes in the
    entry of the subdomain field in its error object and nowhere else:
    the field values and the errors of every other field, the name field
    among them, are what they were; so is the open flag of the modal, and
    no route is pushed. *)
Theorem error_path_frame mut v w msg :
  mut (variables_of v) = Rejected (ErrorInstance msg) ->
  let w' := exec (handleCreateProject mut v) w in
  values w' = values w /\
  (exists error, errors w' = <[lit "subdomain" := error]> (errors w)) /\
  (forall field, field <> lit "subdomain" -> errors w' !! field = errors w !! field) /\
  errors w' !! lit "name" = errors w !! lit "name" /\
  isCreateProjectModalOpen w' = isCreateProjectModalOpen w /\
  pushed w' = pushed w /\
  exists made,
    calls w' = calls w ++ made /\
    Forall (fun c => forall url, c <> call_router_push url) made.
Proof.
  intros Hm. cbv zeta. unfold exec.
  rewrite (run_rejected_error mut v w msg Hm).
  cbn [snd values errors isCreateProjectModalOpen pushed calls].
  split; [done |]. split; [by eexists |].
  assert (Hframe : forall field, field <> lit "subdomain" ->
            <[lit "subdomain" := mkFieldError (lit "custom") (field_message msg)]>
              (errors w) !! field = errors w !! field).
  { intros field Hne. by apply lookup_insert_ne. }
  split; [exact Hframe |].
  split; [apply Hframe, name_ne_subdomain |].
  do 2 (split; [done |]). eexists. split; [reflexivity |].
  repeat constructor; discriminate.
Qed.

(** The theorem on a form that already shows an error on the name field. *)
Lemma error_path_frame_witness :
  let shown := mkFieldError (lit "too_small") name_too_short in
  let w := mkWorld false ∅ [] true (mkValues (lit "My project") (lit "acme"))
                   {[lit "name" := shown]} [] in
  let w' := exec (handleCreateProject
                    (fun _ => Rejected (ErrorInstance (lit "Network unreachable")))
                    (mkValues (lit "My project") (lit "acme"))) w in
  values w' = mkValues (lit "My project") (lit "acme") /\
  errors w' !! lit "name" = Some shown /\
  isCreateProjectModalOpen w' = true /\
  pushed w' = [].
Proof.
  cbv zeta.
  destruct (error_path_frame
              (fun _ => Rejected (ErrorInstance (lit "Network unreachable")))
              (mkValues (lit "My project") (lit "acme"))
              (mkWorld false ∅ [] true (mkValues (lit "My project") (lit "acme"))
                 {[lit "name" := mkFieldError (lit "too_small") name_too_short]} [])
              (lit "Network unreachable") eq_refl)
    as (Hvalues & _ & _ & Hname & Hopen & Hpushed & _).
  split; [exact Hvalues |]. split; [| split; [exact Hopen | exact Hpushed]].
  rewrite Hname. cbn [errors]. apply lookup_singleton_eq.
Defined.

(** ** The presence guard *)

(** C7: on a dismiss with a non-empty list of projects the guard requests
    the close and the modal is closed, nothing else changes; with an empty
    list the guard does nothing at all and the modal stays as it is. *)
Theorem presence_guard {P : Type} (projects : list P) (w : World) :
  let w' := exec (validateProjectPresence (Some projects)) w in
  (projects <> [] ->
   isCreateProjectModalOpen w' = false /\
   w' = mkWorld (loading w) (toasts w) (pushed w) false (values w) (errors w)
                (calls w ++ [call_closeCreateProjectModal])) /\
  (projects = [] -> w' = w).
Proof.
  cbv zeta. destruct projects as [|p ps]; (split; [intros Hne | intros Heq]);
    try done.
Qed.

(** The theorem on a list of one project and on the empty list, for an
    open modal. *)
Lemma presence_guard_witness :
  isCreateProjectModalOpen (exec (validateProjectPresence (Some [lit "acme"])) initial)
    = false /\
  isCreateProjectModalOpen (exec (validateProjectPresence (Some (@nil jsstring))) initial)
    = true.
Proof.
  split.
  - by apply (presence_guard [lit "acme"] initial).
  - destruct (presence_guard (@nil jsstring) initial) as [_ Hempty].
    by rewrite Hempty.
Defined.

(** C9: while the list of projects is not there yet ([undefined]), the
    guard does what it does on the empty list: it makes no call and leaves
    the world, the open flag of the modal included, as it is. *)
Theorem presence_guard_undefined (P : Type) (w : World) :
  let w' := exec (validateProjectPresence (@None (list P))) w in
  w' = w /\
  w' = exec (validateProjectPresence (Some (@nil P))) w /\
  isCreateProjectModalOpen w' = isCreateProjectModalOpen w /\
  calls w' = calls w.
Proof. done. Qed.

(** ** Submission of the form *)

(** Values the schema rejects never reach the handler: the errors are put
    on the form, no call is made and the loading flag is not touched. *)
Lemma submit_invalid mut (w : World) :
  zodResolver formSchema (values w) <> ∅ ->
  let w' := exec (handleSubmit (handleCreateProject mut)) w in
  errors w' = zodResolver formSchema (values w) /\
  calls w' = calls w /\
  loading w' = loading w.
Proof.
  intros Hinvalid. cbv zeta. unfold exec, handleSubmit.
  by rewrite decide_False.
Qed.

(** Values the schema accepts are handed to the handler as they are. *)
Lemma submit_valid mut (w : World) :
  zodResolver formSchema (values w) = ∅ ->
  handleSubmit (handleCreateProject mut) w =
  handleCreateProject mut (values w) (set_errors ∅ w).
Proof. intros Hvalid. unfold handleSubmit. by rewrite decide_True. Qed.

(** * Further properties of the component *)

(** ** The schema as a whole *)

Lemma name_accepted (v : FormValues) :
  zodResolver formSchema v !! lit "name" = None <-> 3 <= length (name v) <= 17.
Proof.
  rewrite resolver_name. unfold z.string_parse, name_schema. simpl.
  destruct (Nat.ltb_spec (length (name v)) 3);
    destruct (Nat.ltb_spec 17 (length (name v))); simpl;
    (split; [try done; lia | try done; lia]).
Qed.

Lemma subdomain_accepted (v : FormValues) :
  zodResolver formSchema v !! lit "subdomain" = None <->
  3 <= length (subdomain v) /\ Forall is_alnum (subdomain v).
Proof.
  rewrite resolver_subdomain.
  pose proof (subdomain_pattern_lang (subdomain v)) as Hlang.
  pose proof (test_spec subdomain_pattern (subdomain v)) as Htest.
  unfold z.string_parse, subdomain_schema. cbn [omap list_omap z.run_check].
  destruct (Nat.ltb_spec (length (subdomain v)) 3) as [Hlt|Hge];
    destruct (Regex.test subdomain_pattern (subdomain v)) eqn:Ht;
    cbn [head fmap option_fmap option_map].
  - split; [done | lia].
  - split; [done | lia].
  - split; [intros _ | done]. split; [done |]. by apply Hlang, Htest.
  - split; [done |]. intros [_ Hall].
    assert (Hl : Regex.lang subdomain_pattern (subdomain v)).
    { apply Hlang. split; [| done]. intros Hnil. rewrite Hnil in Hge.
      simpl in Hge. lia. }
    by apply Htest in Hl.
Qed.

(** The resolver reports on the two fields of the schema and on nothing
    else. *)
Lemma resolver_other (v : FormValues) (field : jsstring) :
  field <> lit "name" -> field <> lit "subdomain" ->
  zodResolver formSchema v !! field = None.
Proof.
  intros Hname Hsub. unfold zodResolver.
  rewrite lookup_parseErrorSchema, formSchema_issues, first_on_app.
  rewrite (first_on_other (lit "name") field); [| done | apply string_parse_path].
  apply (first_on_other (lit "subdomain")); [done | apply string_parse_path].
Qed.

Lemma resolver_empty_iff (v : FormValues) :
  zodResolver formSchema v = ∅ <-> acceptable v.
Proof.
  unfold acceptable. rewrite <- name_accepted, <- subdomain_accepted. split.
  - intros ->. by rewrite !lookup_empty.
  - intros [Hname Hsub]. apply map_empty. intros field.
    destruct (decide (field = lit "name")) as [->|Hn]; [done |].
    destruct (decide (field = lit "subdomain")) as [->|Hs]; [done |].
    by apply resolver_other.
Qed.

(** X1: the form passes validation, that is, the resolver reports no
    error at all, exactly when the name has 3 to 17 code units and the
    subdomain has at least 3, all of them ASCII letters or digits; and
    whatever the values, errors are reported on the name and the subdomain
    only. *)
Theorem form_accepted_iff (v : FormValues) :
  (zodResolver formSchema v = ∅ <-> acceptable v) /\
  (forall field, is_Some (zodResolver formSchema v !! field) ->
                 field = lit "name" \/ field = lit "subdomain").
Proof.
  split; [apply resolver_empty_iff |]. intros field Hsome.
  destruct (decide (field = lit "name")) as [->|Hn]; [by left |].
  destruct (decide (field = lit "subdomain")) as [->|Hs]; [by right |].
  rewrite resolver_other in Hsome by done. by destruct Hsome.
Qed.

(** ** The submission workflow over all outcomes *)

(** Case analysis on what becomes of the promise of the mutation, with
    the run of the handler rewritten to its final world in each case. *)
Ltac by_outcome mut v w :=
  let Hm := fresh "Hm" in
  let Hid := fresh "Hid" in
  destruct (mut (variables_of v)) as [res|[msg|value]|] eqn:Hm;
  [ destruct (truthy (identifier res)) eqn:Hid;
    [ let Hres := fresh "Hres" in
      let Hp := fresh "Hp" in
      destruct (identifier_truthy res Hid) as (project & Hres & Hp);
      destruct res as [cp]; cbn in Hres; subst cp;
      rewrite (run_fulfilled_truthy mut v w project Hm Hp)
    | rewrite (run_fulfilled_falsy mut v w res Hm Hid) ]
  | rewrite (run_rejected_error mut v w msg Hm)
  | rewrite (run_rejected_other mut v w value Hm)
  | rewrite (run_pending mut v w Hm) ];
  cbn [fst snd loading toasts pushed isCreateProjectModalOpen values errors calls].

(** The calls of one run: the flag, the toast, the mutation, and then
    calls that are not calls of the mutation. *)
Lemma handler_calls mut v w :
  exists rest,
    calls (exec (handleCreateProject mut v) w) =
      calls w ++
      [call_setLoading true;
       call_toast_loading (lit "Creating project...") key;
       call_createProjectAsync (variables_of v)] ++ rest /\
    mutation_calls rest = [].
Proof.
  unfold exec. by_outcome mut v w; eexists; (split; [reflexivity | reflexivity]).
Qed.

Lemma mutation_calls_app (xs ys : list Call) :
  mutation_calls (xs ++ ys) = mutation_calls xs ++ mutation_calls ys.
Proof. apply omap_app. Qed.

(** X2: one submission calls the mutation exactly once, whatever becomes
    of its promise (there is no retry), and the variables of that call are
    the submitted name and subdomain as they are. *)
Theorem mutation_called_once mut v w :
  exists made,
    calls (exec (handleCreateProject mut v) w) = calls w ++ made /\
    mutation_calls made = [Variables.mk (name v) (subdomain v)].
Proof.
  destruct (handler_calls mut v w) as (rest & Hcalls & Hrest).
  eexists. split; [exact Hcalls |].
  by rewrite mutation_calls_app, Hrest.
Qed.

(** X3: the handler never throws: it returns normally when the promise of
    the mutation settles, in whatever way, and it is suspended exactly
    when the promise stays pending. *)
Theorem handler_never_throws mut v w :
  (forall reason, completion (handleCreateProject mut v) w <> Throw reason) /\
  (completion (handleCreateProject mut v) w = Suspended <->
   mut (variables_of v) = Pending) /\
  (completion (handleCreateProject mut v) w = Normal tt <->
   mut (variables_of v) <> Pending).
Proof.
  unfold completion. by_outcome mut v w; repeat split; try done.
  all: by intros [].
Qed.

(** X4: while the promise of the mutation stays pending, the handler is
    suspended after the call of the mutation: the loading flag is set and
    never cleared, so both inputs and both buttons are disabled, the
    in-progress toast is on screen, and the modal, the routes and the form
    errors are what they were. *)
Theorem pending_stays_submitting mut v w :
  mut (variables_of v) = Pending ->
  let w' := exec (handleCreateProject mut v) w in
  completion (handleCreateProject mut v) w = Suspended /\
  loading w' = true /\
  render w' = mkView (isCreateProjectModalOpen w) true true true true /\
  toasts w' !! key = Some in_progress /\
  pushed w' = pushed w /\
  errors w' = errors w /\
  calls w' =
    calls w ++
    [call_setLoading true;
     call_toast_loading (lit "Creating project...") key;
     call_createProjectAsync (variables_of v)].
Proof.
  intros Hm. cbv zeta. unfold exec, completion, render.
  rewrite (run_pending mut v w Hm).
  cbn [fst snd loading toasts pushed isCreateProjectModalOpen values errors calls].
  repeat split. apply lookup_insert_eq.
Qed.

(** The theorem on a mutation that never answers, for an open modal. *)
Lemma pending_stays_submitting_witness :
  let w' := exec (handleCreateProject (fun _ => Pending)
                    (mkValues (lit "My project") (lit "acme"))) initial in
  loading w' = true /\ render w' = mkView true true true true true.
Proof.
  destruct (pending_stays_submitting (fun _ => Pending)
              (mkValues (lit "My project") (lit "acme")) initial eq_refl)
    as (_ & Hloading & Hview & _).
  split; [exact Hloading | exact Hview].
Defined.

(** X5: what no run of the handler touches, whatever becomes of the
    promise: the field values, the toasts under every other id, the errors
    of every field but the subdomain, the calls and routes made before;
    and a run pushes at most one route. *)
Theorem handler_frame mut v w :
  let w' := exec (handleCreateProject mut v) w in
  values w' = values w /\
  (forall id, id <> key -> toasts w' !! id = toasts w !! id) /\
  (forall field, field <> lit "subdomain" -> errors w' !! field = errors w !! field) /\
  (exists made, calls w' = calls w ++ made) /\
  (exists routes, pushed w' = pushed w ++ routes /\ length routes <= 1).
Proof.
  cbv zeta. unfold exec. by_outcome mut v w.
  all: split; [done |].
  all: split;
    [ intros id Hid';
      rewrite ?lookup_insert_ne, ?lookup_delete_ne by done; done |].
  all: split; [intros field Hfield; rewrite ?lookup_insert_ne by done; done |].
  all: split; [by eexists |].
  - eexists. split; [reflexivity | simpl; lia].
  - exists []. split; [by rewrite app_nil_r | simpl; lia].
  - exists []. split; [by rewrite app_nil_r | simpl; lia].
  - exists []. split; [by rewrite app_nil_r | simpl; lia].
  - exists []. split; [by rewrite app_nil_r | simpl; lia].
Qed.

(** X6: a route is pushed only on success: the routes change exactly when
    the mutation resolved with a project whose id is truthy, and then the
    one route added is [/dashboard/] followed by the subdomain of that
    project, with the modal closed and the success toast shown. *)
Theorem navigation_iff_success mut v w :
  let w' := exec (handleCreateProject mut v) w in
  (pushed w' <> pushed w <->
   exists project,
     mut (variables_of v) = Fulfilled (mkResult (Some project)) /\
     truthy (Project.id project) = true) /\
  (pushed w' <> pushed w ->
   exists project,
     mut (variables_of v) = Fulfilled (mkResult (Some project)) /\
     pushed w' = pushed w ++ [lit "/dashboard/" ++ Project.subdomain project] /\
     isCreateProjectModalOpen w' = false /\
     toasts w' !! key = Some succeeded).
Proof.
  assert (Hgrows : forall (l : list jsstring) x, l ++ [x] <> l).
  { intros l x Heq. apply (f_equal length) in Heq.
    rewrite length_app in Heq. simpl in Heq. lia. }
  cbv zeta. unfold exec. by_outcome mut v w.
  - split.
    + split; [intros _; by exists project | intros _; apply Hgrows].
    + intros _. exists project. repeat split. apply lookup_insert_eq.
  - split; [split; [done |] | done].
    intros (project & Heq & Hp). injection Heq as ->.
    unfold identifier in *. cbn in *. congruence.
  - split; [split; [done |] | done]. by intros (project & Heq & _).
  - split; [split; [done |] | done]. by intros (project & Heq & _).
  - split; [split; [done |] | done]. by intros (project & Heq & _).
Qed.

(** X7: a modal that is open stays open exactly on the two paths on which
    the user is to try again or to wait: the mutation threw an [Error], or
    its promise is still pending; on every other path it ends closed, and
    no path opens a closed modal. *)
Theorem modal_stays_open_iff mut v w :
  isCreateProjectModalOpen (exec (handleCreateProject mut v) w) = true <->
  isCreateProjectModalOpen w = true /\
  ((exists msg, mut (variables_of v) = Rejected (ErrorInstance msg)) \/
   mut (variables_of v) = Pending).
Proof.
  unfold exec. by_outcome mut v w.
  - split; [done |]. by intros [_ [[m Hm'] | Hm']].
  - split; [done |]. by intros [_ [[m Hm'] | Hm']].
  - split; [intros Hopen; split; [done | left; by exists msg] | by intros [? _]].
  - split; [done |]. by intros [_ [[m Hm'] | Hm']].
  - split; [intros Hopen; split; [done | by right] | by intros [? _]].
Qed.

(** X8: the in-progress toast is still on screen after the run exactly
    when the promise is pending or the mutation resolved without a truthy
    identifier; on the other paths it was replaced or removed. *)
Theorem in_progress_toast_left_iff mut v w :
  toasts (exec (handleCreateProject mut v) w) !! key = Some in_progress <->
  mut (variables_of v) = Pending \/
  exists res, mut (variables_of v) = Fulfilled res /\ truthy (identifier res) = false.
Proof.
  unfold exec. by_outcome mut v w;
    rewrite ?lookup_insert_eq, ?lookup_delete_eq.
  - split; [done |]. intros [Hm' | (res & Heq & Hfalsy)]; [done |].
    injection Heq as <-. unfold identifier in Hfalsy. cbn in Hfalsy. congruence.
  - split; [intros _; right; by exists res | done].
  - split; [done |]. by intros [Hm' | (res & Heq & _)].
  - split; [done |]. by intros [Hm' | (res & Heq & _)].
  - split; [intros _; by left | done].
Qed.

(** ** Submission through the form *)

(** X9: values the schema rejects never reach the server: the submission
    ends at once with the errors of the resolver on the form, and makes no
    call at all, so no mutation, no toast, no route, no change of the
    loading flag or of the modal. *)
Theorem invalid_submit_stops mut (w : World) :
  ~ acceptable (values w) ->
  let w' := exec (handleSubmit (handleCreateProject mut)) w in
  completion (handleSubmit (handleCreateProject mut)) w = Normal tt /\
  errors w' = zodResolver formSchema (values w) /\
  errors w' <> ∅ /\
  calls w' = calls w /\
  toasts w' = toasts w /\
  pushed w' = pushed w /\
  loading w' = loading w /\
  isCreateProjectModalOpen w' = isCreateProjectModalOpen w /\
  values w' = values w.
Proof.
  intros Hbad. cbv zeta.
  assert (Hne : zodResolver formSchema (values w) <> ∅)
    by (by rewrite resolver_empty_iff).
  unfold exec, completion, handleSubmit. by rewrite decide_False.
Qed.

(** The theorem on the form as it is first shown, both fields empty. *)
Lemma invalid_submit_stops_witness :
  let w' := exec (handleSubmit (handleCreateProject (fun _ => Pending))) initial in
  calls w' = [] /\ loading w' = false /\ errors w' <> ∅.
Proof.
  destruct (invalid_submit_stops (fun _ => Pending) initial)
    as (_ & _ & Herrors & Hcalls & _ & _ & Hloading & _).
  - intros [[Hname _] _]. simpl in Hname. lia.
  - split; [exact Hcalls | split; [exact Hloading | exact Herrors]].
Defined.

(** X10: values the schema accepts reach the server once, unchanged: the
    submission calls the mutation exactly once, with the name and the
    subdomain of the form as its variables. *)
Theorem valid_submit_calls_mutation mut (w : World) :
  acceptable (values w) ->
  exists made,
    calls (exec (handleSubmit (handleCreateProject mut)) w) = calls w ++ made /\
    mutation_calls made =
      [Variables.mk (name (values w)) (subdomain (values w))].
Proof.
  intros Hok%resolver_empty_iff. unfold exec. rewrite (submit_valid mut w Hok).
  destruct (handler_calls mut (values w) (set_errors ∅ w)) as (rest & Hcalls & Hrest).
  eexists. split; [exact Hcalls |].
  by rewrite mutation_calls_app, Hrest.
Qed.

(** The theorem on a filled form whose mutation resolves. *)
Lemma valid_submit_calls_mutation_witness :
  let v := mkValues (lit "My project") (lit "acme") in
  let mut := fun _ : Variables.t =>
    Fulfilled (mkResult (Some (Project.mk (JString (lit "p1")) (lit "acme")))) in
  let w := mkWorld false ∅ [] true v ∅ [] in
  exists made,
    calls (exec (handleSubmit (handleCreateProject mut)) w) = made /\
    mutation_calls made = [Variables.mk (lit "My project") (lit "acme")].
Proof.
  cbv zeta.
  apply (valid_submit_calls_mutation
           (fun _ => Fulfilled (mkResult (Some (Project.mk (JString (lit "p1")) (lit "acme")))))
           (mkWorld false ∅ [] true (mkValues (lit "My project") (lit "acme")) ∅ [])).
  split; [simpl; lia |]. split; [simpl; lia |].
  apply subdomain_pattern_lang, test_spec. by vm_compute.
Defined.
